(** * CanSocket: sending and receiving CAN frames over SocketCAN

    A shallow embedding of [bsw/src/communication/CanSocket.h].  The
    class talks to the operating system through a handful of calls
    ([socket], [if_nametoindex], [bind], [setsockopt], [write], [read]);
    here every such call is recorded in a trace of [os_call]s and its
    answer is supplied from outside, so a property like "the OS transport
    is not invoked" is a statement about the trace.

    Raw array accesses ([data[i]], [frame.data[i]]) are bounds-checked in
    the embedding: an access outside the array ends the computation with
    a [Fault], which stands for the undefined behaviour of the C++ text. *)

From Stdlib Require Import ZArith Ascii String.
From stdpp Require Import base tactics option list.

Local Open Scope Z_scope.

(** ** Fixed-width integers of [ComStack_Types.h] *)

Module AR.

(** [static_cast< AR::sint8 >(z)]: two's complement wrap to 8 bits. *)
Definition to_sint8 (z : Z) : Z := (z + 128) mod 256 - 128.

(** A store into a [__u8] / [AR::uint8] object. *)
Definition to_uint8 (z : Z) : Z := z mod 256.

(** The conversion [unsigned int -> int] of an interface index. *)
Definition to_sint32 (z : Z) : Z := (z + 2147483648) mod 4294967296 - 2147483648.

Definition is_uint8 (z : Z) : Prop := 0 <= z < 256.
Definition is_sint8 (z : Z) : Prop := -128 <= z <= 127.
Definition is_uint32 (z : Z) : Prop := 0 <= z < 4294967296.

End AR.

(** ** Frame shapes *)

(** The template argument [CANFrame] of [send] is either [CanStdData] or
    [CanFDData] (the [static_assert] admits nothing else). *)
Inductive CANFrame := CanStdData | CanFDData.

Module CAN_STD.
Definition DATA_LEN : nat := 8.
End CAN_STD.

Module CAN_FD.
Definition DATA_LEN : nat := 64.
End CAN_FD.

(** [data.size()] of a payload container of the given type. *)
Definition capacity (K : CANFrame) : nat :=
  match K with
  | CanStdData => CAN_STD.DATA_LEN
  | CanFDData => CAN_FD.DATA_LEN
  end.

(** [struct canfd_frame] of [<linux/can.h>]: an 8-byte header
    ([can_id] at offset 0, [len] at 4, [flags] at 5, [__res0] at 6,
    [__res1] at 7) followed by [data[64]] at offset 8.  [struct can_frame]
    has the same header and [data[8]]. *)
Record canfd_frame := mk_frame {
  can_id : Z;
  len : Z;
  flags : Z;
  res0 : Z;
  res1 : Z;
  data : list Z
}.

Definition CANFD_MAX_DLEN : nat := 64.
Definition frame_header_size : Z := 8.

(** Modelled from the spec: [sizeof(SelectedFrame)], which the source takes
    from the system header [<linux/can.h>]; the envelope is 16 bytes for
    [struct can_frame] and 72 bytes for [struct canfd_frame] (the values
    [CAN_MTU] and [CANFD_MTU] quoted in the documentation of [send]). *)
Definition sizeof_SelectedFrame (K : CANFrame) : Z :=
  match K with
  | CanStdData => 16
  | CanFDData => 72
  end.

Definition sizeof_canfd_frame : Z := 72.

(** A frame object in a well-formed state: [data] is a 64-byte array. *)
Definition frame_wf (f : canfd_frame) : Prop := length (data f) = CANFD_MAX_DLEN.

(** [std::memset(&frame, 0, n)] for [n] at least the header size: the header
    and the first [n - 8] payload bytes become zero, the rest of the object
    keeps whatever it held. *)
Definition memset_frame (f : canfd_frame) (n : Z) : canfd_frame :=
  let k := Z.to_nat (n - frame_header_size) in
  {| can_id := 0; len := 0; flags := 0; res0 := 0; res1 := 0;
     data := replicate k 0 ++ drop k (data f) |}.

(** The first [n] bytes of the frame object, which is what
    [write(socket, &frame, n)] hands to the transport. *)
Definition envelope (f : canfd_frame) (n : Z) : canfd_frame :=
  {| can_id := can_id f; len := len f; flags := flags f;
     res0 := res0 f; res1 := res1 f;
     data := take (Z.to_nat (n - frame_header_size)) (data f) |}.

(** ** Checked array accesses *)

Inductive access_error :=
| PayloadIndexOutOfBounds (i : nat)   (* data[i], i >= data.size() *)
| FrameIndexOutOfBounds (i : nat)     (* frame.data[i], i >= 64 *)
| StringReadPastEnd.                  (* strncpy ran off the source array *)

Inductive checked (A : Type) :=
| Done (a : A)
| Fault (e : access_error).
Arguments Done {A} a.
Arguments Fault {A} e.

Definition checked_bind {A B} (c : checked A) (k : A -> checked B) : checked B :=
  match c with
  | Done a => k a
  | Fault e => Fault e
  end.

Notation "x <- c ;;; k" := (checked_bind c (fun x => k))
  (at level 100, c at next level, right associativity).

(** ** The endpoint and the operating system *)

Definition IFNAMSIZ : nat := 16.

Record ifreq := mk_ifreq {
  ifr_name : list ascii;
  ifr_ifindex : Z
}.

Record CanSocket := mk_CanSocket {
  (* members of the base class Socket< CanSocket > *)
  m_socket : Z;
  m_is_socket_initialized : bool;
  m_last_error : Z;
  (* members of CanSocket *)
  m_ifr : ifreq;
  m_can_init : bool
}.

Inductive os_call :=
| OsSocket
| OsIfNameToIndex (name : string)
| OsBind (ifindex : Z)
| OsEnableCanFd
| OsWrite (socket : Z) (buf : canfd_frame) (count : Z)  (* write(socket, &buf, count) *)
| OsRead (socket : Z) (count : Z)
| OsWait (socket : Z) (timeout_us : Z).

(** What [write] answered, [errno] as the call left it, and [errno] as it
    stands once the diagnostic
    [std::cout << "Send failed with error number: " << errno << "\n"]
    has been written, which is when [send] stores it into [m_last_error].
    The insertion is itself output through the C library and may set
    [errno]; when it does not, the two values are the same. *)
Record write_reply := mk_write_reply {
  send_res : Z;
  write_errno : Z;
  cout_errno : Z
}.

(** Modelled from the spec: the bodies of [is_can_initialized],
    [is_socket_initialized] and [get_socket_handle] are not part of the
    header; they are the plain accessors the spec describes ("Checks if
    the CAN is initialized properly", the readiness predicate, and the
    owned socket handle). *)
Definition is_can_initialized (self : CanSocket) : bool := m_can_init self.
Definition is_socket_initialized (self : CanSocket) : bool := m_is_socket_initialized self.
Definition get_socket_handle (self : CanSocket) : Z := m_socket self.

Definition set_last_error (self : CanSocket) (e : Z) : CanSocket :=
  {| m_socket := m_socket self;
     m_is_socket_initialized := m_is_socket_initialized self;
     m_last_error := e;
     m_ifr := m_ifr self;
     m_can_init := m_can_init self |}.

Definition set_can_init (self : CanSocket) (b : bool) : CanSocket :=
  {| m_socket := m_socket self;
     m_is_socket_initialized := m_is_socket_initialized self;
     m_last_error := m_last_error self;
     m_ifr := m_ifr self;
     m_can_init := b |}.

Definition set_ifr (self : CanSocket) (r : ifreq) : CanSocket :=
  {| m_socket := m_socket self;
     m_is_socket_initialized := m_is_socket_initialized self;
     m_last_error := m_last_error self;
     m_ifr := r;
     m_can_init := m_can_init self |}.

(** ** [CanSocket::send] *)

Definition set_frame_id (f : canfd_frame) (id : Z) : canfd_frame :=
  {| can_id := id; len := len f; flags := flags f;
     res0 := res0 f; res1 := res1 f; data := data f |}.

Definition set_frame_len (f : canfd_frame) (l : Z) : canfd_frame :=
  {| can_id := can_id f; len := AR.to_uint8 l; flags := flags f;
     res0 := res0 f; res1 := res1 f; data := data f |}.

Definition set_frame_data (f : canfd_frame) (d : list Z) : canfd_frame :=
  {| can_id := can_id f; len := len f; flags := flags f;
     res0 := res0 f; res1 := res1 f; data := d |}.

(** [for (AR::uint8 i = 0U; i < len; ++i) frame.data[i] = data[i];]
    with [n] iterations left and the counter at [i].  The right operand of
    the assignment is evaluated first. *)
Fixpoint copy_loop (payload : list Z) (n i : nat) (fdata : list Z) : checked (list Z) :=
  match n with
  | O => Done fdata
  | S n' =>
      match payload !! i with
      | None => Fault (PayloadIndexOutOfBounds i)
      | Some b =>
          if decide (i < length fdata)%nat
          then copy_loop payload n' (S i) (<[i := b]> fdata)
          else Fault (FrameIndexOutOfBounds i)
      end
  end.

(** [send< CANFrame >(can_id, data, len)].  [frame0] is the content of the
    stack slot of the local [frame] before it is initialised; [os] is what
    the transport answers if it is asked.  The result is the returned
    [AR::sint8], the endpoint afterwards and the OS calls made.  On a
    failed [write] the source prints a diagnostic and only then executes
    [m_last_error = errno]: the text printed is not recorded, but the value
    stored is [errno] as the print left it, [cout_errno]. *)
Definition send (K : CANFrame) (self : CanSocket) (frame0 : canfd_frame)
    (os : write_reply) (id : Z) (payload : list Z) (length_arg : Z)
  : checked (Z * CanSocket * list os_call) :=
  if is_can_initialized self && (0 <? length_arg) then
    let frame := memset_frame frame0 (sizeof_SelectedFrame K) in
    let frame := set_frame_id frame id in
    let frame := set_frame_len frame (Z.min length_arg (Z.of_nat (length payload))) in
    fdata <- copy_loop payload (Z.to_nat length_arg) 0 (data frame) ;;;
    let frame := set_frame_data frame fdata in
    let socket := get_socket_handle self in
    let call := OsWrite socket frame (sizeof_SelectedFrame K) in
    let data_sent := AR.to_sint8 (send_res os) in
    if data_sent <=? 0
    then
      (* std::cout << "Send failed with error number: " << errno << "\n"; *)
      let errno := cout_errno os in
      Done (-1, set_last_error self errno, [call])
    else Done (data_sent, self, [call])
  else
    Done (-1, self, []).

(** ** [CanSocket::check_interface] *)

(** The array a string literal denotes: its characters and the closing
    NUL.  The constructor's argument is a [const char (&)[N]]. *)
Definition char_array (s : string) : list ascii :=
  list_ascii_of_string s ++ [zero].

(** The characters [strncpy(dst, src, n)] stores at [dst[0..n)]: those of
    [src] up to its first NUL, then NULs up to [n] characters. *)
Fixpoint strncpy_chars (src : list ascii) (n : nat) {struct n}
  : checked (list ascii) :=
  match n with
  | O => Done []
  | S n' =>
      match src with
      | [] => Fault StringReadPastEnd
      | c :: rest =>
          if Ascii.eqb c zero then Done (replicate n zero)
          else tl <- strncpy_chars rest n' ;;; Done (c :: tl)
      end
  end.

Definition strncpy (dst src : list ascii) (n : nat) : checked (list ascii) :=
  copied <- strncpy_chars src n ;;; Done (copied ++ drop n dst).

(** The C string held in a character buffer: everything before the first
    NUL. *)
Fixpoint c_str (buf : list ascii) : string :=
  match buf with
  | [] => EmptyString
  | c :: rest => if Ascii.eqb c zero then EmptyString else String c (c_str rest)
  end.

(** The answers of the operating system during construction. *)
Record os_env := mk_os_env {
  os_socket_handle : Z;          (* what the base class got from socket() *)
  os_socket_created : bool;      (* whether that succeeded *)
  os_socket_errno : Z;           (* the error code the base recorded *)
  if_nametoindex : string -> Z;  (* unsigned int, 0 for an unknown name *)
  os_bind_ok : bool;
  os_canfd_ok : bool
}.

Definition os_env_wf (os : os_env) : Prop :=
  forall name, AR.is_uint32 (if_nametoindex os name).

Definition check_interface (os : os_env) (self : CanSocket)
    (interface_str : list ascii) : checked (bool * CanSocket * list os_call) :=
  name <- strncpy (ifr_name (m_ifr self)) interface_str (IFNAMSIZ - 1) ;;;
  let name := <[(IFNAMSIZ - 1)%nat := zero]> name in
  let index := AR.to_sint32 (if_nametoindex os (c_str name)) in
  let self := set_ifr self {| ifr_name := name; ifr_ifindex := index |} in
  let call := OsIfNameToIndex (c_str name) in
  if negb (index =? 0)
  then Done (true, self, [call])
  else Done (false, self, [call]).

(** ** The constructor *)

(** Modelled from the spec: the base class [Socket< CanSocket >] lives in
    [Socket.h], which is not at hand.  Its constructor
    [Socket{SocketType::CAN}] performs step 1 of the lifecycle ("Create
    socket bound to the CAN raw-socket address family"), owns the handle
    and remembers whether creation succeeded.  [raw_ifr] is the content of
    the member [m_ifr], which nothing has initialised yet; [m_can_init] is
    [FALSE] by the member initialiser of the [CanSocket] constructor. *)
Definition Socket_ctor (os : os_env) (raw_ifr : ifreq) : CanSocket * list os_call :=
  ({| m_socket := os_socket_handle os;
      m_is_socket_initialized := os_socket_created os;
      m_last_error := os_socket_errno os;
      m_ifr := raw_ifr;
      m_can_init := false |},
   [OsSocket]).

(** Modelled from the spec: [bind_if_socket] is declared only; step 3,
    "Bind the socket to the resolved interface index", reporting success. *)
Definition bind_if_socket (os : os_env) (self : CanSocket)
  : bool * CanSocket * list os_call :=
  (os_bind_ok os, self, [OsBind (ifr_ifindex (m_ifr self))]).

(** Modelled from the spec: [enable_canfd] is declared only; step 4, the
    request to the transport to accept both frame shapes, reporting
    success. *)
Definition enable_canfd (os : os_env) (self : CanSocket)
  : bool * CanSocket * list os_call :=
  (os_canfd_ok os, self, [OsEnableCanFd]).

(** [CanSocket(interface_str)]; the diagnostics printed to [std::cout]
    are not part of the model. *)
Definition CanSocket_ctor (os : os_env) (raw_ifr : ifreq)
    (interface_str : list ascii) : checked (CanSocket * list os_call) :=
  let '(self, t0) := Socket_ctor os raw_ifr in
  let sock_created := is_socket_initialized self in
  if sock_created then
    r <- check_interface os self interface_str ;;;
    let '(interface_exists, self, t1) := r in
    if interface_exists then
      let '(bind_success, self, t2) := bind_if_socket os self in
      if bind_success then
        let '(canfd, self, t3) := enable_canfd os self in
        Done (set_can_init self canfd, t0 ++ t1 ++ t2 ++ t3)
      else
        Done (set_can_init self false, t0 ++ t1 ++ t2)
    else
      Done (set_can_init self false, t0 ++ t1)
  else
    Done (set_can_init self false, t0).

(** The four initialisation steps, in the order of the constructor. *)
Inductive init_step := StepSocket | StepInterface | StepBind | StepCanFd.

Definition init_order : list init_step :=
  [StepSocket; StepInterface; StepBind; StepCanFd].

Definition step_of (c : os_call) : option init_step :=
  match c with
  | OsSocket => Some StepSocket
  | OsIfNameToIndex _ => Some StepInterface
  | OsBind _ => Some StepBind
  | OsEnableCanFd => Some StepCanFd
  | _ => None
  end.

Definition steps_run (t : list os_call) : list init_step := omap step_of t.

(** The name the resolver looks up for a literal [s]. *)
Definition stored_name (s : string) : string :=
  c_str (take (IFNAMSIZ - 1) (char_array s)).

(** Whether a step succeeds for the literal [s] under [os]. *)
Definition step_ok (os : os_env) (s : string) (st : init_step) : bool :=
  match st with
  | StepSocket => os_socket_created os
  | StepInterface => negb (if_nametoindex os (stored_name s) =? 0)
  | StepBind => os_bind_ok os
  | StepCanFd => os_canfd_ok os
  end.

(** ** The two receivers *)

(** Forward types of the header: [CanDataType] is an array of
    [CAN_STD::DATA_LEN] bytes, [CanFDData] one of [CAN_FD::DATA_LEN]. *)
Definition CanDataType_size : nat := CAN_STD.DATA_LEN.
Definition CanFDData_size : nat := CAN_FD.DATA_LEN.

(** What the transport answers to a receive call: the result of the
    bounded wait (positive: readable, zero: the timeout elapsed, negative:
    failure; the blocking receiver does not wait), the result of [read],
    the frame it delivered and [errno]. *)
Record read_reply := mk_read_reply {
  wait_res : Z;
  read_res : Z;
  rx_frame : canfd_frame;
  read_errno : Z
}.

(** Decoding into a caller's array of [n] bytes: the identifier, and the
    payload up to the array's capacity. *)
Definition decode (n : nat) (f : canfd_frame) : Z * list Z :=
  (can_id f, take n (data f)).

(** Modelled from the spec: the body of the blocking
    [receive(CanIDType&, CanFDData&)] is not in the header.  Per the spec it
    "always reads a buffer sized for the largest frame shape", "decodes the
    identifier and up to the largest payload capacity, and returns a
    positive count on success, a negative sentinel on error"; a failed
    endpoint short-circuits to the error without touching the OS.  The
    result is the return value, the endpoint, the two out-parameters and
    the OS calls made; [out] holds the out-parameters before the call. *)
Definition receive (self : CanSocket) (os : read_reply) (out : Z * list Z)
  : Z * CanSocket * (Z * list Z) * list os_call :=
  if is_can_initialized self then
    let call := OsRead (get_socket_handle self) sizeof_canfd_frame in
    let data_received := AR.to_sint8 (read_res os) in
    if 0 <? data_received
    then (data_received, self, decode CanFDData_size (rx_frame os), [call])
    else (-1, set_last_error self (read_errno os), out, [call])
  else (-1, self, out, []).

(** Modelled from the spec: the body of the time-bounded
    [receive(CanIDType&, CanDataType&, timeout_us)] is not in the header.
    Per the spec it waits at most [timeout_us] microseconds and has "three
    distinguishable outcomes: positive return with decoded
    identifier/payload on success; exactly 0 if no frame arrived before
    timeout elapsed; negative sentinel on OS-level error, with Last Error
    updated"; it "decodes into a payload buffer sized for the classic
    (8-byte) shape only"; a failed endpoint short-circuits to the error
    without touching the OS. *)
Definition receive_timed (self : CanSocket) (os : read_reply) (out : Z * list Z)
    (timeout_us : Z) : Z * CanSocket * (Z * list Z) * list os_call :=
  if is_can_initialized self then
    let socket := get_socket_handle self in
    let wait := OsWait socket timeout_us in
    if 0 <? wait_res os then
      let call := OsRead socket sizeof_canfd_frame in
      let data_received := AR.to_sint8 (read_res os) in
      if 0 <? data_received
      then (data_received, self, decode CanDataType_size (rx_frame os), [wait; call])
      else (-1, set_last_error self (read_errno os), out, [wait; call])
    else if wait_res os =? 0 then
      (0, self, out, [wait])
    else
      (-1, set_last_error self (read_errno os), out, [wait])
  else (-1, self, out, []).




(** ** Abbreviations and sample values used in the statements *)

(** The local [frame] of a call in range at the moment of [write]: what
    the call stored, then the zeros of [memset], then what the stack slot
    held before. *)
Definition frame_object (K : CANFrame) (frame0 : canfd_frame) (id : Z)
    (payload : list Z) (l : Z) : canfd_frame :=
  {| can_id := id; len := l; flags := 0; res0 := 0; res1 := 0;
     data := take (Z.to_nat l) payload ++
             replicate (capacity K - Z.to_nat l) 0 ++
             drop (capacity K) (data frame0) |}.

(** The bytes of it that [write] transfers. *)
Definition wire_frame (K : CANFrame) (id : Z) (payload : list Z) (l : Z) : canfd_frame :=
  {| can_id := id; len := l; flags := 0; res0 := 0; res1 := 0;
     data := take (Z.to_nat l) payload ++ replicate (capacity K - Z.to_nat l) 0 |}.

(** What [send] returns and leaves behind once [write] has answered. *)
Definition after_write (self : CanSocket) (os : write_reply) : Z * CanSocket :=
  if AR.to_sint8 (send_res os) <=? 0
  then (-1, set_last_error self (cout_errno os))
  else (AR.to_sint8 (send_res os), self).

(** An endpoint whose construction went through on "can0". *)
Definition ready_socket : CanSocket :=
  {| m_socket := 3; m_is_socket_initialized := true; m_last_error := 0;
     m_ifr := {| ifr_name := char_array "can0" ++ replicate 11 zero;
                 ifr_ifindex := 4 |};
     m_can_init := true |}.

(** The same endpoint after a failed construction. *)
Definition failed_socket : CanSocket := set_can_init ready_socket false.

(** A stack slot full of leftovers. *)
Definition stale_frame : canfd_frame :=
  {| can_id := 3735928559; len := 170; flags := 170; res0 := 170; res1 := 170;
     data := replicate CANFD_MAX_DLEN 170 |}.

Definition payload8 : list Z := [1; 2; 3; 4; 5; 6; 7; 8].

(** [write] transferred the whole classic envelope. *)
Definition write_ok : write_reply :=
  {| send_res := 16; write_errno := 0; cout_errno := 0 |}.

(** [write] failed with ENETDOWN. *)
Definition write_failed : write_reply :=
  {| send_res := -1; write_errno := 100; cout_errno := 100 |}.

(** [write] failed with ENETDOWN and printing the diagnostic failed with
    ENOSPC. *)
Definition write_failed_print_failed : write_reply :=
  {| send_res := -1; write_errno := 100; cout_errno := 28 |}.

(** A host that knows one CAN interface, "can0", with index 4. *)
Definition host_with_can0 : os_env :=
  {| os_socket_handle := 3; os_socket_created := true; os_socket_errno := 0;
     if_nametoindex := fun name => if String.eqb name "can0" then 4 else 0;
     os_bind_ok := true; os_canfd_ok := true |}.

(** The member [m_ifr] before anything was stored in it. *)
Definition raw_ifreq : ifreq :=
  {| ifr_name := replicate IFNAMSIZ "x"%char; ifr_ifindex := 77 |}.

Definition raw_socket : CanSocket := fst (Socket_ctor host_with_can0 raw_ifreq).

(** A host on which creating the socket works but no interface is known. *)
Definition host_without_can : os_env :=
  {| os_socket_handle := 3; os_socket_created := true; os_socket_errno := 0;
     if_nametoindex := fun _ => 0;
     os_bind_ok := true; os_canfd_ok := true |}.

Definition rx_out (r : Z * CanSocket * (Z * list Z) * list os_call) : Z * list Z :=
  snd (fst r).

(** A flexible frame with 12 payload bytes, and the reply that delivers it. *)
Definition fd_frame12 : canfd_frame :=
  {| can_id := 291; len := 12; flags := 0; res0 := 0; res1 := 0;
     data := [1; 2; 3; 4; 5; 6; 7; 8; 9; 10; 11; 12] ++ replicate 52 0 |}.

Definition fd_arrival : read_reply :=
  {| wait_res := 1; read_res := 72; rx_frame := fd_frame12; read_errno := 0 |}.







(** ** Further definitions used by the additional properties *)

(** Applying a function to the value of a computation that ended
    normally. *)
Definition checked_map {A B} (f : A -> B) (c : checked A) : checked B :=
  match c with
  | Done a => Done (f a)
  | Fault e => Fault e
  end.

(** What a caller of [send] observes besides the endpoint: the returned
    value and the OS calls. *)
Definition ret_and_calls (r : Z * CanSocket * list os_call) : Z * list os_call :=
  (fst (fst r), snd r).

(** What a caller of [check_interface] observes besides the members the
    function does not touch: the answer, the member [m_ifr] and the OS
    calls. *)
Definition answer_ifr_calls (r : bool * CanSocket * list os_call)
  : bool * ifreq * list os_call :=
  (fst (fst r), m_ifr (snd (fst r)), snd r).

(** The copy loop of [send] with its counter as the source declares it, an
    [AR::uint8] that [++i] wraps at 256, and the test [i < len] made before
    every iteration.  [fuel] bounds the number of tests; [None] means the
    bound was reached before the loop ended. *)
Fixpoint copy_loop_u8 (fuel : nat) (payload : list Z) (length_arg i : Z)
    (fdata : list Z) : option (checked (list Z)) :=
  match fuel with
  | O => None
  | S fuel' =>
      if i <? length_arg then
        match payload !! Z.to_nat i with
        | None => Some (Fault (PayloadIndexOutOfBounds (Z.to_nat i)))
        | Some b =>
            if decide (Z.to_nat i < length fdata)%nat
            then copy_loop_u8 fuel' payload length_arg (AR.to_uint8 (i + 1))
                              (<[Z.to_nat i := b]> fdata)
            else Some (Fault (FrameIndexOutOfBounds (Z.to_nat i)))
        end
      else Some (Done fdata)
  end.

(** A flexible payload of 64 bytes. *)
Definition payload64 : list Z := replicate CAN_FD.DATA_LEN 7.

(** A character array of four characters without a closing NUL, as
    [const char name[4] = {'c', 'a', 'n', '0'}] declares it. *)
Definition unterminated_can0 : list ascii := list_ascii_of_string "can0".

(** * Properties *)

(** ** Integer conversions *)

Lemma to_sint8_id z : AR.is_sint8 z -> AR.to_sint8 z = z.
Proof.
  unfold AR.is_sint8, AR.to_sint8. intros Hz.
  rewrite Z.mod_small; lia.
Qed.

Lemma to_uint8_id z : AR.is_uint8 z -> AR.to_uint8 z = z.
Proof.
  unfold AR.is_uint8, AR.to_uint8. intros Hz.
  apply Z.mod_small; lia.
Qed.

Lemma to_sint32_zero z : AR.is_uint32 z -> (AR.to_sint32 z = 0 <-> z = 0).
Proof.
  unfold AR.is_uint32, AR.to_sint32. intros Hz.
  destruct (Z_lt_le_dec z 2147483648) as [Hlt | Hge].
  - rewrite Z.mod_small by lia. lia.
  - replace (z + 2147483648) with (z - 2147483648 + 1 * 4294967296) by lia.
    rewrite Z_mod_plus_full, Z.mod_small by lia. lia.
Qed.

Lemma capacity_le_frame K : (capacity K <= CANFD_MAX_DLEN)%nat.
Proof. destruct K; vm_compute; lia. Qed.

Lemma capacity_envelope K :
  Z.to_nat (sizeof_SelectedFrame K - frame_header_size) = capacity K.
Proof. destruct K; reflexivity. Qed.

(** ** The copy loop *)

(** Inside both arrays the loop runs to its end. *)
Lemma copy_loop_in_bounds payload n : forall i fdata,
  (i + n <= length payload)%nat -> (i + n <= length fdata)%nat ->
  exists out, copy_loop payload n i fdata = Done out.
Proof.
  induction n as [| n IH]; intros i fdata Hp Hf; simpl.
  - eauto.
  - destruct (lookup_lt_is_Some_2 payload i) as [b Hb]; [lia |].
    rewrite Hb. rewrite decide_True by lia.
    apply IH; [lia | rewrite length_insert; lia].
Qed.

(** What a completed loop leaves in [frame.data]: the indices it visited
    hold the caller's bytes, every other index is untouched. *)
Lemma copy_loop_result payload n : forall i fdata out,
  copy_loop payload n i fdata = Done out ->
  length out = length fdata /\
  forall j, out !! j =
            if decide (i <= j < i + n)%nat then payload !! j else fdata !! j.
Proof.
  induction n as [| n IH]; intros i fdata out H; simpl in H.
  - inversion H; subst. split; [done |].
    intros j. rewrite decide_False by lia. done.
  - destruct (payload !! i) as [b |] eqn:Hb; [| discriminate].
    destruct (decide (i < length fdata)%nat) as [Hi |]; [| discriminate].
    apply IH in H as [Hlen Hout]. rewrite length_insert in Hlen.
    split; [done |]. intros j. rewrite Hout.
    destruct (decide (j = i)) as [-> | Hne].
    + rewrite decide_False by lia. rewrite decide_True by lia.
      rewrite list_lookup_insert_eq by done. done.
    + rewrite list_lookup_insert_ne by done.
      destruct (decide (S i <= j < S i + n)%nat);
        [rewrite decide_True by lia | rewrite decide_False by lia]; done.
Qed.

(** The loop ends normally only if every index it uses is inside both
    arrays. *)
Lemma copy_loop_done_bounds payload n : forall i fdata out,
  copy_loop payload n i fdata = Done out ->
  n = 0%nat \/ ((i + n <= length payload)%nat /\ (i + n <= length fdata)%nat).
Proof.
  induction n as [| n IH]; intros i fdata out H; simpl in H; [by left | right].
  destruct (payload !! i) as [b |] eqn:Hb; [| discriminate].
  destruct (decide (i < length fdata)%nat) as [Hi |]; [| discriminate].
  apply lookup_lt_Some in Hb.
  apply IH in H as [-> | [H1 H2]]; [lia |].
  rewrite length_insert in H2. lia.
Qed.

(** Asked for more bytes than the caller's array holds, the loop reads
    [data[data.size()]]. *)
Lemma copy_loop_overrun payload n : forall i fdata,
  (i <= length payload)%nat -> (length payload <= length fdata)%nat ->
  (length payload < i + n)%nat ->
  copy_loop payload n i fdata = Fault (PayloadIndexOutOfBounds (length payload)).
Proof.
  induction n as [| n IH]; intros i fdata Hi Hf Hn; simpl; [lia |].
  destruct (decide (i = length payload)) as [-> | Hne].
  - rewrite lookup_ge_None_2 by lia. done.
  - destruct (lookup_lt_is_Some_2 payload i) as [b Hb]; [lia |].
    rewrite Hb. rewrite decide_True by lia.
    apply IH; [lia | rewrite length_insert; lia | lia].
Qed.

(** As a list: the first [n] bytes of the caller's array, then what
    [frame.data] held before. *)
Lemma copy_loop_from_zero payload n fdata out :
  copy_loop payload n 0 fdata = Done out ->
  (n <= length payload)%nat -> (n <= length fdata)%nat ->
  out = take n payload ++ drop n fdata.
Proof.
  intros H Hp Hf. apply copy_loop_result in H as [Hlen Hout].
  apply list_eq. intros j. rewrite Hout.
  destruct (decide (0 <= j < 0 + n)%nat) as [Hj | Hj].
  - rewrite lookup_app_l by (rewrite length_take; lia).
    rewrite lookup_take_lt by lia. done.
  - rewrite lookup_app_r by (rewrite length_take; lia).
    rewrite length_take, lookup_drop. f_equal. lia.
Qed.

(** ** [send]: the three ways a call can go *)

Lemma memset_frame_data K frame0 :
  frame_wf frame0 ->
  data (memset_frame frame0 (sizeof_SelectedFrame K)) =
  replicate (capacity K) 0 ++ drop (capacity K) (data frame0).
Proof. intros _. unfold memset_frame. simpl. by rewrite capacity_envelope. Qed.

Lemma memset_frame_wf K frame0 :
  frame_wf frame0 -> frame_wf (memset_frame frame0 (sizeof_SelectedFrame K)).
Proof.
  intros Hwf. unfold frame_wf in *. rewrite memset_frame_data by done.
  rewrite length_app, length_replicate, length_drop, Hwf.
  pose proof (capacity_le_frame K). lia.
Qed.

Lemma envelope_frame_object K frame0 id payload l :
  length payload = capacity K -> 0 < l <= Z.of_nat (capacity K) ->
  envelope (frame_object K frame0 id payload l) (sizeof_SelectedFrame K) =
  wire_frame K id payload l.
Proof.
  intros Hlen Hl. unfold envelope, frame_object, wire_frame. simpl. f_equal.
  rewrite capacity_envelope, app_assoc. apply take_app_length'.
  rewrite length_app, length_take, length_replicate. lia.
Qed.

(** Guard failed: nothing happens. *)
Lemma send_rejected K self frame0 os id payload l :
  is_can_initialized self = false \/ l <= 0 ->
  send K self frame0 os id payload l = Done (-1, self, []).
Proof.
  intros [Hinit | Hl]; unfold send.
  - by rewrite Hinit.
  - replace (0 <? l) with false by (symmetry; apply Z.ltb_ge; lia).
    by rewrite andb_false_r.
Qed.

(** Guard passed and the length fits the container: one [write] of the
    fixed envelope. *)
Lemma send_in_range K self frame0 os id payload l :
  is_can_initialized self = true -> frame_wf frame0 ->
  length payload = capacity K -> 0 < l <= Z.of_nat (capacity K) ->
  send K self frame0 os id payload l =
  Done (after_write self os,
        [OsWrite (get_socket_handle self) (frame_object K frame0 id payload l)
                 (sizeof_SelectedFrame K)]).
Proof.
  intros Hinit Hwf Hlen Hl. unfold send.
  rewrite Hinit. replace (0 <? l) with true by (symmetry; apply Z.ltb_lt; lia).
  simpl andb. cbv iota.
  pose proof (capacity_le_frame K) as Hcap.
  pose proof (memset_frame_wf K _ Hwf) as Hwf'. unfold frame_wf in Hwf'.
  set (n := Z.to_nat l).
  assert (Hn : (n <= capacity K)%nat) by (subst n; lia).
  destruct (copy_loop_in_bounds payload n 0
              (data (memset_frame frame0 (sizeof_SelectedFrame K))))
    as [out Hout]; [lia | lia |].
  cbv zeta. unfold set_frame_data, set_frame_len, set_frame_id.
  cbn [data can_id len flags res0 res1]. fold n. rewrite Hout.
  cbn [checked_bind data can_id len flags res0 res1].
  replace (can_id (memset_frame frame0 (sizeof_SelectedFrame K))) with 0 by done.
  replace (flags (memset_frame frame0 (sizeof_SelectedFrame K))) with 0 by done.
  replace (res0 (memset_frame frame0 (sizeof_SelectedFrame K))) with 0 by done.
  replace (res1 (memset_frame frame0 (sizeof_SelectedFrame K))) with 0 by done.
  apply copy_loop_from_zero in Hout; [| lia | lia].
  rewrite memset_frame_data in Hout by done.
  assert (Hframe :
            {| can_id := id;
               len := AR.to_uint8 (Z.min l (Z.of_nat (length payload)));
               flags := 0; res0 := 0; res1 := 0; data := out |}
            = frame_object K frame0 id payload l).
  { unfold frame_object. f_equal.
    - rewrite Hlen, Z.min_l by lia. apply to_uint8_id.
      unfold AR.is_uint8. unfold CANFD_MAX_DLEN in Hcap. lia.
    - rewrite Hout. fold n.
      rewrite drop_app_le by (rewrite length_replicate; lia).
      by rewrite drop_replicate. }
  rewrite Hframe. unfold after_write.
  destruct (AR.to_sint8 (send_res os) <=? 0); done.
Qed.

(** Guard passed and the length exceeds the container: the loop leaves the
    caller's array, and no frame is built. *)
Lemma send_overlong K self frame0 os id payload l :
  is_can_initialized self = true -> frame_wf frame0 ->
  length payload = capacity K -> Z.of_nat (capacity K) < l ->
  send K self frame0 os id payload l =
  Fault (PayloadIndexOutOfBounds (capacity K)).
Proof.
  intros Hinit Hwf Hlen Hl. unfold send.
  rewrite Hinit. replace (0 <? l) with true by (symmetry; apply Z.ltb_lt; lia).
  simpl andb. cbv iota.
  pose proof (capacity_le_frame K) as Hcap.
  pose proof (memset_frame_wf K _ Hwf) as Hwf'. unfold frame_wf in Hwf'.
  cbv zeta. unfold set_frame_data, set_frame_len, set_frame_id.
  cbn [data can_id len flags res0 res1].
  rewrite copy_loop_overrun; [by rewrite Hlen | lia | lia | lia].
Qed.

(** Every call that returns is one of the first two. *)
Lemma send_done_inv K self frame0 os id payload l r :
  frame_wf frame0 -> length payload = capacity K ->
  send K self frame0 os id payload l = Done r ->
  ((is_can_initialized self = false \/ l <= 0) /\ r = (-1, self, []))
  \/
  (is_can_initialized self = true /\ 0 < l <= Z.of_nat (capacity K) /\
   r = (after_write self os,
        [OsWrite (get_socket_handle self) (frame_object K frame0 id payload l)
                 (sizeof_SelectedFrame K)])).
Proof.
  intros Hwf Hlen Hsend.
  destruct (is_can_initialized self) eqn:Hinit.
  - destruct (Z_le_gt_dec l 0) as [Hl | Hl].
    + left. rewrite send_rejected in Hsend by auto.
      inversion Hsend. auto.
    + destruct (Z_le_gt_dec l (Z.of_nat (capacity K))) as [Hc | Hc].
      * right. rewrite send_in_range in Hsend by (done || lia).
        inversion Hsend. repeat split; (done || lia).
      * rewrite send_overlong in Hsend by (done || lia). discriminate.
  - left. rewrite send_rejected in Hsend by auto.
    inversion Hsend. auto.
Qed.

(** ** Claims about [send] *)

(** C1. The spec asks that a call with [length > capacity] hands the
    transport a frame with exactly [capacity] payload bytes, copying the
    caller's bytes [0, capacity) and nothing beyond.  The code clamps
    [frame.len] only: the copy loop still runs to the requested length, so
    for every such call it reads [data[capacity]], outside the caller's
    array, and no frame is handed over in the checked embedding. *)
Theorem send_overlong_reads_past_payload K self frame0 os id payload l :
  is_can_initialized self = true -> frame_wf frame0 ->
  length payload = capacity K -> Z.of_nat (capacity K) < l ->
  send K self frame0 os id payload l =
  Fault (PayloadIndexOutOfBounds (capacity K)).
Proof. apply send_overlong. Qed.

Lemma send_overlong_reads_past_payload_witness :
  is_can_initialized ready_socket = true /\ frame_wf stale_frame /\
  length payload8 = capacity CanStdData /\ Z.of_nat (capacity CanStdData) < 20 /\
  send CanStdData ready_socket stale_frame write_ok 291 payload8 20 =
  Fault (PayloadIndexOutOfBounds 8).
Proof.
  split; [reflexivity |]. split; [reflexivity |]. split; [reflexivity |].
  split; [vm_compute; reflexivity |].
  apply (send_overlong_reads_past_payload CanStdData ready_socket stale_frame
           write_ok 291 payload8 20);
    [reflexivity | reflexivity | reflexivity | vm_compute; reflexivity].
Defined.

(** C10. The out-of-bounds branch of the copy loop is reachable with a
    length the 8-bit parameter can hold: a classic payload sent with
    [len = 9] passes the guard and then reads [data[8]] of an 8-byte array. *)
Theorem send_classic_len9_out_of_bounds :
  AR.is_uint8 9 /\
  send CanStdData ready_socket stale_frame write_ok 291 payload8 9 =
  Fault (PayloadIndexOutOfBounds 8).
Proof. split; [unfold AR.is_uint8; lia | reflexivity]. Qed.

(** C2, as stated, fails: the zero-fill does not cover the full extent of
    the largest frame shape.  For a classic payload [memset] clears
    [sizeof(struct can_frame)] bytes of a [struct canfd_frame] object, so
    in the buffer whose address [write] receives the bytes
    [frame.data[8..64)] still hold what the stack slot held before. *)
Lemma zero_fill_not_full_extent :
  ~ (forall K self frame0 os id payload l ret self' socket buf n,
       frame_wf frame0 -> length payload = capacity K ->
       send K self frame0 os id payload l =
         Done (ret, self', [OsWrite socket buf n]) ->
       forall j, (capacity K <= j < CANFD_MAX_DLEN)%nat -> data buf !! j = Some 0).
Proof.
  intros H.
  assert (Hs : send CanStdData ready_socket stale_frame write_ok 291 payload8 8 =
               Done (16, ready_socket,
                     [OsWrite 3 (frame_object CanStdData stale_frame 291 payload8 8) 16]))
    by reflexivity.
  specialize (H CanStdData ready_socket stale_frame write_ok 291 payload8 8
                _ _ _ _ _ eq_refl eq_refl Hs 8%nat).
  assert (Hj : (capacity CanStdData <= 8 < CANFD_MAX_DLEN)%nat)
    by (vm_compute; lia).
  specialize (H Hj). vm_compute in H. discriminate.
Qed.

(** C2, amended.  For every call that reaches the transport, the zero-fill
    covers exactly the envelope of the selected frame shape, which is all
    that [write] is asked to transfer; in the transmitted envelope the flag
    and reserved bytes are zero and so is every payload byte from the wire
    length up to the capacity, and the envelope does not depend on what
    the stack slot held before. *)
Theorem send_envelope_zero_outside_payload
    K self frame0 os id payload l ret self' trace socket buf n :
  frame_wf frame0 -> length payload = capacity K ->
  send K self frame0 os id payload l = Done (ret, self', trace) ->
  In (OsWrite socket buf n) trace ->
  n = sizeof_SelectedFrame K /\
  envelope (memset_frame frame0 (sizeof_SelectedFrame K)) n =
    {| can_id := 0; len := 0; flags := 0; res0 := 0; res1 := 0;
       data := replicate (capacity K) 0 |} /\
  flags (envelope buf n) = 0 /\ res0 (envelope buf n) = 0 /\
  res1 (envelope buf n) = 0 /\
  length (data (envelope buf n)) = capacity K /\
  (forall j, (Z.to_nat (len (envelope buf n)) <= j < capacity K)%nat ->
             data (envelope buf n) !! j = Some 0) /\
  envelope buf n = wire_frame K id payload l.
Proof.
  intros Hwf Hlen Hsend Hin.
  pose proof (send_done_inv _ _ _ _ _ _ _ _ Hwf Hlen Hsend)
    as [[_ Hr] | (Hinit & Hl & Hr)].
  { injection Hr as -> -> ->. destruct Hin. }
  injection Hr as _ ->. destruct Hin as [Heq | []].
  injection Heq as <- <- <-.
  split; [reflexivity |]. split.
  { unfold envelope. rewrite memset_frame_data by done. simpl.
    rewrite capacity_envelope. f_equal.
    apply take_app_length'. by rewrite length_replicate. }
  rewrite envelope_frame_object by done.
  unfold wire_frame. simpl.
  split; [reflexivity |]. split; [reflexivity |]. split; [reflexivity |].
  split; [rewrite length_app, length_take, length_replicate; lia |].
  split; [| reflexivity].
  intros j Hj. rewrite lookup_app_r by (rewrite length_take; lia).
  apply lookup_replicate_2. rewrite length_take. lia.
Qed.

Lemma send_envelope_zero_outside_payload_witness :
  frame_wf stale_frame /\ length payload8 = capacity CanStdData /\
  send CanStdData ready_socket stale_frame write_ok 291 payload8 3 =
    Done (16, ready_socket,
          [OsWrite 3 (frame_object CanStdData stale_frame 291 payload8 3) 16]) /\
  envelope (frame_object CanStdData stale_frame 291 payload8 3) 16 =
    {| can_id := 291; len := 3; flags := 0; res0 := 0; res1 := 0;
       data := [1; 2; 3; 0; 0; 0; 0; 0] |}.
Proof.
  split; [reflexivity |]. split; [reflexivity |]. split; [reflexivity |].
  pose proof (send_envelope_zero_outside_payload CanStdData ready_socket
    stale_frame write_ok 291 payload8 3 16 ready_socket
    [OsWrite 3 (frame_object CanStdData stale_frame 291 payload8 3) 16]
    3 (frame_object CanStdData stale_frame 291 payload8 3) 16
    eq_refl eq_refl eq_refl (or_introl eq_refl))
    as (_ & _ & _ & _ & _ & _ & _ & Hwire).
  exact Hwire.
Defined.

(** C3. A call on an endpoint that is not initialized, or with a requested
    length of zero in any endpoint state, returns -1, makes no OS call and
    leaves the endpoint as it was. *)
Theorem send_guard_rejects K self frame0 os id payload l :
  is_can_initialized self = false \/ l = 0 ->
  send K self frame0 os id payload l = Done (-1, self, []).
Proof. intros [H | ->]; apply send_rejected; [by left | right; lia]. Qed.

Lemma send_guard_rejects_witness :
  (is_can_initialized failed_socket = false \/ 8 = 0) /\
  send CanFDData failed_socket stale_frame write_ok 291 payload8 8 =
  Done (-1, failed_socket, []).
Proof.
  split; [left; reflexivity |].
  apply (send_guard_rejects CanFDData failed_socket stale_frame write_ok 291
           payload8 8).
  left; reflexivity.
Defined.

(** C4. When [write] reports a result of at most zero, [send] returns
    exactly -1 and overwrites Last Error with the OS error code current at
    that moment: [m_last_error = errno] is executed after the diagnostic
    has been printed, so the value stored is [errno] as it stands then,
    which is the code the failed [write] left whenever printing did not
    change [errno].  When [write] reports a positive count, and when the
    call is rejected before it reaches the OS, Last Error keeps its value.
    The result of [write] is taken in the range of [AR::sint8], which
    contains everything POSIX [write] can answer for a count of 16 or 72. *)
Theorem send_last_error K self frame0 os id payload l ret self' trace :
  frame_wf frame0 -> length payload = capacity K ->
  AR.is_sint8 (send_res os) ->
  send K self frame0 os id payload l = Done (ret, self', trace) ->
  (trace <> [] -> send_res os <= 0 ->
     ret = -1 /\ self' = set_last_error self (cout_errno os) /\
     m_last_error self' = cout_errno os /\
     (cout_errno os = write_errno os -> m_last_error self' = write_errno os)) /\
  (trace <> [] -> 0 < send_res os ->
     self' = self /\ m_last_error self' = m_last_error self) /\
  (trace = [] -> self' = self /\ m_last_error self' = m_last_error self).
Proof.
  intros Hwf Hlen Hres Hsend.
  pose proof (send_done_inv _ _ _ _ _ _ _ _ Hwf Hlen Hsend)
    as [[_ Hr] | (Hinit & Hl & Hr)].
  - injection Hr as -> -> ->. repeat split; done.
  - injection Hr as Haw ->. unfold after_write in Haw.
    rewrite to_sint8_id in Haw by done.
    destruct (Z.leb_spec (send_res os) 0) as [Hle | Hgt];
      injection Haw as -> ->; repeat split; intros; (done || lia).
Qed.

Lemma send_last_error_witness :
  frame_wf stale_frame /\ length payload8 = capacity CanStdData /\
  AR.is_sint8 (send_res write_failed_print_failed) /\
  send CanStdData ready_socket stale_frame write_failed_print_failed 291
       payload8 8 =
    Done (-1, set_last_error ready_socket 28,
          [OsWrite 3 (frame_object CanStdData stale_frame 291 payload8 8) 16]) /\
  m_last_error (set_last_error ready_socket 28) =
    cout_errno write_failed_print_failed.
Proof.
  split; [reflexivity |]. split; [reflexivity |].
  split; [unfold AR.is_sint8; simpl; lia |].
  split; [reflexivity |].
  assert (Hs : AR.is_sint8 (send_res write_failed_print_failed))
    by (unfold AR.is_sint8; simpl; lia).
  pose proof (send_last_error CanStdData ready_socket stale_frame
    write_failed_print_failed 291 payload8 8 (-1)
    (set_last_error ready_socket 28)
    [OsWrite 3 (frame_object CanStdData stale_frame 291 payload8 8) 16]
    eq_refl eq_refl Hs eq_refl) as [Hfail _].
  destruct Hfail as (_ & _ & Hlast & _); [discriminate | simpl; lia |].
  exact Hlast.
Defined.

(** C5. Whenever a call reaches the transport, the count passed to [write]
    is the size of the selected frame structure, 16 for a classic payload
    container and 72 for a flexible one, whatever length was requested;
    and when the OS reports a positive count up to that size, in
    particular the full envelope, [send] returns exactly that count. *)
Theorem send_envelope_size
    K self frame0 os id payload l ret self' trace socket buf n :
  frame_wf frame0 -> length payload = capacity K ->
  send K self frame0 os id payload l = Done (ret, self', trace) ->
  In (OsWrite socket buf n) trace ->
  n = sizeof_SelectedFrame K /\
  n = match K with CanStdData => 16 | CanFDData => 72 end /\
  (0 < send_res os <= n -> ret = send_res os) /\
  (send_res os = n -> ret = n).
Proof.
  intros Hwf Hlen Hsend Hin.
  pose proof (send_done_inv _ _ _ _ _ _ _ _ Hwf Hlen Hsend)
    as [[_ Hr] | (Hinit & Hl & Hr)].
  { injection Hr as -> -> ->. destruct Hin. }
  injection Hr as Haw ->. destruct Hin as [Heq | []].
  injection Heq as <- <- <-.
  assert (Hn : 0 < sizeof_SelectedFrame K <= 127) by (destruct K; simpl; lia).
  assert (Hpos : 0 < send_res os <= sizeof_SelectedFrame K -> ret = send_res os).
  { intros Hr'. unfold after_write in Haw.
    rewrite to_sint8_id in Haw by (unfold AR.is_sint8; lia).
    replace (send_res os <=? 0) with false in Haw
      by (symmetry; apply Z.leb_gt; lia).
    by injection Haw as -> ->. }
  split; [done |]. split; [by destruct K |]. split; [exact Hpos |].
  intros Heq. rewrite <- Heq. apply Hpos. lia.
Qed.

Lemma send_envelope_size_witness :
  frame_wf stale_frame /\ length payload8 = capacity CanStdData /\
  send CanStdData ready_socket stale_frame write_ok 291 payload8 3 =
    Done (16, ready_socket,
          [OsWrite 3 (frame_object CanStdData stale_frame 291 payload8 3) 16]) /\
  16 = sizeof_SelectedFrame CanStdData.
Proof.
  split; [reflexivity |]. split; [reflexivity |]. split; [reflexivity |].
  pose proof (send_envelope_size CanStdData ready_socket stale_frame write_ok
    291 payload8 3 16 ready_socket
    [OsWrite 3 (frame_object CanStdData stale_frame 291 payload8 3) 16]
    3 (frame_object CanStdData stale_frame 291 payload8 3) 16
    eq_refl eq_refl eq_refl (or_introl eq_refl)) as [Hn _].
  exact Hn.
Defined.

(** ** The interface resolver *)

Lemma eqb_zero_spec c : Ascii.eqb c zero = true <-> c = zero.
Proof. apply Ascii.eqb_eq. Qed.

(** On a NUL-terminated array [strncpy] never leaves the array; it yields
    exactly [n] characters, and as a C string they are the source cut at
    [n] characters. *)
Lemma strncpy_chars_terminated n : forall pre,
  exists copied,
    strncpy_chars (pre ++ [zero]) n = Done copied /\
    length copied = n /\
    c_str (copied ++ [zero]) = c_str (take n (pre ++ [zero])).
Proof.
  induction n as [| n IH]; intros pre.
  - exists []. rewrite take_0. simpl. repeat split.
  - destruct pre as [| c pre]; simpl.
    + exists (zero :: replicate n zero). simpl. rewrite length_replicate.
      repeat split.
    + destruct (Ascii.eqb c zero) eqn:Hc.
      * exists (zero :: replicate n zero). simpl. rewrite length_replicate.
        repeat split.
      * destruct (IH pre) as (copied & Hcopy & Hlen & Hstr).
        exists (c :: copied). rewrite Hcopy. simpl. rewrite Hc, Hlen, Hstr.
        repeat split.
Qed.

Lemma c_str_length buf : (String.length (c_str buf) <= length buf)%nat.
Proof.
  induction buf as [| c buf IH]; simpl; [lia |].
  destruct (Ascii.eqb c zero); simpl; lia.
Qed.

(** The stored name is an initial part of the literal. *)
Lemma c_str_take_prefix s : forall n,
  exists rest, s = (c_str (take n (char_array s)) ++ rest)%string.
Proof.
  induction s as [| c s IH]; intros n.
  - exists EmptyString. destruct n; reflexivity.
  - destruct n as [| n]; [by exists (String c s) |].
    unfold char_array. simpl.
    destruct (Ascii.eqb c zero); [by exists (String c s) |].
    destruct (IH n) as [rest Hrest]. exists rest. simpl.
    unfold char_array in Hrest. by rewrite <- Hrest.
Qed.

(** Without an embedded NUL the stored name is the literal's first [n]
    characters. *)
Lemma c_str_take_no_nul s : forall n,
  (forall c, In c (list_ascii_of_string s) -> c <> zero) ->
  c_str (take n (char_array s)) =
  string_of_list_ascii (take n (list_ascii_of_string s)).
Proof.
  induction s as [| c s IH]; intros n Hnz.
  - destruct n; reflexivity.
  - destruct n as [| n]; [reflexivity |].
    unfold char_array. simpl.
    destruct (Ascii.eqb c zero) eqn:Hc.
    + apply eqb_zero_spec in Hc. exfalso. apply (Hnz c); [by left | done].
    + f_equal. apply IH. intros c' Hin. apply Hnz. by right.
Qed.

(** The resolver on a literal. *)
Lemma check_interface_literal os self s :
  os_env_wf os -> length (ifr_name (m_ifr self)) = IFNAMSIZ ->
  exists copied,
    length copied = (IFNAMSIZ - 1)%nat /\
    c_str (copied ++ [zero]) = stored_name s /\
    check_interface os self (char_array s) =
    Done (negb (if_nametoindex os (stored_name s) =? 0),
          set_ifr self
            {| ifr_name := copied ++ [zero];
               ifr_ifindex := AR.to_sint32 (if_nametoindex os (stored_name s)) |},
          [OsIfNameToIndex (stored_name s)]).
Proof.
  intros Hos Hname.
  destruct (strncpy_chars_terminated (IFNAMSIZ - 1) (list_ascii_of_string s))
    as (copied & Hcopy & Hlen & Hstr).
  exists copied. split; [done |]. split; [done |].
  unfold check_interface, strncpy, char_array. rewrite Hcopy.
  cbn [checked_bind].
  assert (Hbuf : <[(IFNAMSIZ - 1)%nat := zero]>
                   (copied ++ drop (IFNAMSIZ - 1) (ifr_name (m_ifr self)))
                 = copied ++ [zero]).
  { destruct (drop (IFNAMSIZ - 1) (ifr_name (m_ifr self))) as [| x rest] eqn:Hd.
    - apply (f_equal length) in Hd. rewrite length_drop, Hname in Hd.
      vm_compute in Hd. discriminate.
    - assert (rest = []) as ->.
      { apply (f_equal length) in Hd. rewrite length_drop, Hname in Hd.
        simpl in Hd. destruct rest; [done |]. vm_compute in Hd. discriminate. }
      rewrite <- Hlen at 1. replace (length copied) with (length copied + 0)%nat by lia.
      by rewrite insert_app_r. }
  rewrite Hbuf. fold (char_array s) in Hstr. fold (stored_name s) in Hstr.
  rewrite Hstr.
  assert (Hz : (AR.to_sint32 (if_nametoindex os (stored_name s)) =? 0)
               = (if_nametoindex os (stored_name s) =? 0)).
  { pose proof (to_sint32_zero _ (Hos (stored_name s))) as Hiff.
    destruct (Z.eqb_spec (if_nametoindex os (stored_name s)) 0) as [H0 | H0].
    - apply Z.eqb_eq. by apply Hiff.
    - apply Z.eqb_neq. intros H. apply H0. by apply Hiff. }
  rewrite Hz. by destruct (if_nametoindex os (stored_name s) =? 0).
Qed.

Lemma host_with_can0_wf : os_env_wf host_with_can0.
Proof.
  intros name. unfold AR.is_uint32. simpl.
  destruct (String.eqb name "can0"); lia.
Defined.

(** C8. For every interface name the resolver returns normally; the
    buffer then holds 16 characters of which the last is NUL; the name in
    it is an initial part of the given one of at most [IFNAMSIZ - 1]
    characters (for a name without embedded NUL exactly its first 15
    characters, so longer names are cut, not refused); the answer is
    [true] exactly when the lookup of the stored name yields a nonzero
    index, and for an unknown name it is [false] with stored index 0. *)
Theorem check_interface_resolves os self s :
  os_env_wf os -> length (ifr_name (m_ifr self)) = IFNAMSIZ ->
  exists found self',
    check_interface os self (char_array s) =
      Done (found, self', [OsIfNameToIndex (stored_name s)]) /\
    length (ifr_name (m_ifr self')) = IFNAMSIZ /\
    ifr_name (m_ifr self') !! (IFNAMSIZ - 1)%nat = Some zero /\
    c_str (ifr_name (m_ifr self')) = stored_name s /\
    (String.length (stored_name s) <= IFNAMSIZ - 1)%nat /\
    (exists rest, s = (stored_name s ++ rest)%string) /\
    ((forall c, In c (list_ascii_of_string s) -> c <> zero) ->
       stored_name s =
       string_of_list_ascii (take (IFNAMSIZ - 1) (list_ascii_of_string s))) /\
    (found = true <-> if_nametoindex os (stored_name s) <> 0) /\
    (if_nametoindex os (stored_name s) = 0 ->
       found = false /\ ifr_ifindex (m_ifr self') = 0).
Proof.
  intros Hos Hname.
  destruct (check_interface_literal os self s Hos Hname)
    as (copied & Hlen & Hstr & Hcheck).
  eexists _, _. split; [exact Hcheck |]. cbn [set_ifr m_ifr ifr_name ifr_ifindex].
  split; [rewrite length_app, Hlen; reflexivity |].
  split.
  { rewrite lookup_app_r by lia. rewrite Hlen, Nat.sub_diag. reflexivity. }
  split; [exact Hstr |].
  split.
  { unfold stored_name. etransitivity; [apply c_str_length |].
    rewrite length_take. lia. }
  split; [apply c_str_take_prefix |].
  split; [apply c_str_take_no_nul |].
  split.
  - rewrite negb_true_iff. apply Z.eqb_neq.
  - intros H0. rewrite H0. split; reflexivity.
Qed.

Lemma check_interface_resolves_witness :
  os_env_wf host_with_can0 /\
  length (ifr_name (m_ifr raw_socket)) = IFNAMSIZ /\
  exists found self',
    check_interface host_with_can0 raw_socket
      (char_array "can0_with_a_very_long_name") =
      Done (found, self', [OsIfNameToIndex "can0_with_a_ver"]) /\
    found = false.
Proof.
  split; [exact host_with_can0_wf |]. split; [reflexivity |].
  destruct (check_interface_resolves host_with_can0 raw_socket
              "can0_with_a_very_long_name" host_with_can0_wf eq_refl)
    as (found & self' & Hcheck & _ & _ & _ & _ & _ & _ & _ & Hzero).
  exists found, self'. split; [exact Hcheck |].
  apply Hzero. reflexivity.
Defined.

(** ** The constructor *)

(** The constructor on a literal, with the resolver's result filled in. *)
Lemma CanSocket_ctor_literal os raw_ifr s :
  os_env_wf os -> length (ifr_name raw_ifr) = IFNAMSIZ ->
  exists self trace,
    CanSocket_ctor os raw_ifr (char_array s) = Done (self, trace) /\
    m_can_init self =
      (step_ok os s StepSocket && step_ok os s StepInterface &&
       step_ok os s StepBind && step_ok os s StepCanFd) /\
    steps_run trace =
      StepSocket ::
      (if step_ok os s StepSocket then
         StepInterface ::
         (if step_ok os s StepInterface then
            StepBind :: (if step_ok os s StepBind then [StepCanFd] else [])
          else [])
       else []) /\
    length trace = length (steps_run trace).
Proof.
  intros Hos Hname. unfold CanSocket_ctor, Socket_ctor, is_socket_initialized.
  cbn [m_is_socket_initialized step_ok].
  destruct (os_socket_created os); [| eexists _, _; repeat split].
  match goal with
  | |- context [check_interface os ?self0 _] =>
      destruct (check_interface_literal os self0 s Hos Hname)
        as (copied & _ & _ & Hcheck)
  end.
  rewrite Hcheck. cbn [checked_bind].
  destruct (negb (if_nametoindex os (stored_name s) =? 0));
    [| eexists _, _; repeat split].
  unfold bind_if_socket, enable_canfd.
  destruct (os_bind_ok os); [| eexists _, _; repeat split].
  eexists _, _. split; [reflexivity |].
  destruct (os_canfd_ok os); repeat split.
Qed.

(** C6. Construction on any interface name returns normally, without a
    fault.  The OS calls it makes are the steps socket creation, interface
    resolution, bind, flexible-mode enable in this order, cut after the
    first step that fails: a step is made exactly when every earlier step
    succeeded.  Afterwards [is_can_initialized()] holds exactly when all
    four steps succeeded; in particular an unresolvable name leads to
    neither bind nor flexible-mode enable and to a failed endpoint. *)
Theorem CanSocket_ctor_lifecycle os raw_ifr s :
  os_env_wf os -> length (ifr_name raw_ifr) = IFNAMSIZ ->
  exists self trace,
    CanSocket_ctor os raw_ifr (char_array s) = Done (self, trace) /\
    (exists k, steps_run trace = take k init_order) /\
    length trace = length (steps_run trace) /\
    In StepSocket (steps_run trace) /\
    (In StepInterface (steps_run trace) <-> step_ok os s StepSocket = true) /\
    (In StepBind (steps_run trace) <->
       step_ok os s StepSocket = true /\ step_ok os s StepInterface = true) /\
    (In StepCanFd (steps_run trace) <->
       step_ok os s StepSocket = true /\ step_ok os s StepInterface = true /\
       step_ok os s StepBind = true) /\
    (is_can_initialized self = true <-> forall st, step_ok os s st = true) /\
    (step_ok os s StepInterface = false ->
       ~ In StepBind (steps_run trace) /\ ~ In StepCanFd (steps_run trace) /\
       is_can_initialized self = false).
Proof.
  intros Hos Hname.
  destruct (CanSocket_ctor_literal os raw_ifr s Hos Hname)
    as (self & trace & Hctor & Hinit & Hsteps & Hlen).
  exists self, trace. split; [exact Hctor |].
  unfold is_can_initialized. rewrite Hsteps in Hlen. rewrite Hinit, Hsteps.
  clear Hctor Hinit Hsteps.
  split.
  { destruct (step_ok os s StepSocket); [| by exists 1%nat].
    destruct (step_ok os s StepInterface); [| by exists 2%nat].
    destruct (step_ok os s StepBind); [by exists 4%nat | by exists 3%nat]. }
  split; [exact Hlen |].
  assert (Hall : forall b1 b2 b3 b4 : bool,
    step_ok os s StepSocket = b1 -> step_ok os s StepInterface = b2 ->
    step_ok os s StepBind = b3 -> step_ok os s StepCanFd = b4 ->
    ((forall st, step_ok os s st = true) <-> b1 && b2 && b3 && b4 = true)).
  { intros b1 b2 b3 b4 <- <- <- <-. split.
    - intros H. rewrite !H. reflexivity.
    - intros H st. rewrite !andb_true_iff in H.
      destruct H as [[[? ?] ?] ?]. by destruct st. }
  specialize (Hall _ _ _ _ eq_refl eq_refl eq_refl eq_refl).
  rewrite Hall. clear Hall Hlen.
  destruct (step_ok os s StepSocket), (step_ok os s StepInterface),
    (step_ok os s StepBind), (step_ok os s StepCanFd); simpl;
    intuition (discriminate || congruence).
Qed.

Lemma host_without_can_wf : os_env_wf host_without_can.
Proof. intros name. unfold AR.is_uint32. simpl. lia. Defined.

Lemma CanSocket_ctor_lifecycle_witness :
  os_env_wf host_without_can /\ length (ifr_name raw_ifreq) = IFNAMSIZ /\
  exists self trace,
    CanSocket_ctor host_without_can raw_ifreq (char_array "vcan7") =
      Done (self, trace) /\
    ~ In StepBind (steps_run trace) /\ is_can_initialized self = false.
Proof.
  split; [exact host_without_can_wf |]. split; [reflexivity |].
  destruct (CanSocket_ctor_lifecycle host_without_can raw_ifreq "vcan7"
              host_without_can_wf eq_refl)
    as (self & trace & Hctor & _ & _ & _ & _ & _ & _ & _ & Hfail).
  exists self, trace. split; [exact Hctor |].
  destruct (Hfail eq_refl) as (Hbind & _ & Hinit). split; assumption.
Defined.

(** ** The receivers *)

(** C7. On the same arrival the blocking receiver hands the caller all 64
    payload bytes of the frame, in an array of 64 bytes, while the
    time-bounded receiver hands over an array of 8 bytes holding the first
    8 only.  Two arrivals that differ only in payload bytes from index 8 on
    are indistinguishable through the time-bounded receiver, whereas the
    blocking receiver tells any two payloads apart. *)
Theorem receive_capacity_asymmetry self os out timeout_us :
  is_can_initialized self = true -> frame_wf (rx_frame os) ->
  0 < wait_res os -> 0 < AR.to_sint8 (read_res os) ->
  (CanFDData_size = 64%nat /\ CanDataType_size = 8%nat) /\
  rx_out (receive self os out) = (can_id (rx_frame os), data (rx_frame os)) /\
  length (snd (rx_out (receive self os out))) = 64%nat /\
  rx_out (receive_timed self os out timeout_us) =
    (can_id (rx_frame os), take 8 (data (rx_frame os))) /\
  length (snd (rx_out (receive_timed self os out timeout_us))) = 8%nat /\
  (forall os',
     wait_res os' = wait_res os -> read_res os' = read_res os ->
     read_errno os' = read_errno os ->
     can_id (rx_frame os') = can_id (rx_frame os) ->
     take 8 (data (rx_frame os')) = take 8 (data (rx_frame os)) ->
     receive_timed self os' out timeout_us = receive_timed self os out timeout_us) /\
  (forall os',
     frame_wf (rx_frame os') -> 0 < AR.to_sint8 (read_res os') ->
     receive self os' out = receive self os out ->
     data (rx_frame os') = data (rx_frame os)).
Proof.
  intros Hinit Hwf Hwait Hread. unfold frame_wf in Hwf.
  assert (Hw : (0 <? wait_res os) = true) by (apply Z.ltb_lt; lia).
  assert (Hr : (0 <? AR.to_sint8 (read_res os)) = true) by (apply Z.ltb_lt; lia).
  split; [split; reflexivity |].
  unfold receive, receive_timed, rx_out, decode. rewrite Hinit, Hw, Hr.
  cbn [fst snd].
  split; [f_equal; apply take_ge; rewrite Hwf; vm_compute; lia |].
  split; [rewrite length_take, Hwf; reflexivity |].
  split; [reflexivity |].
  split; [rewrite length_take, Hwf; reflexivity |].
  split.
  - intros os' -> -> -> Hid Hdata. rewrite Hw, Hr.
    unfold CanDataType_size, CAN_STD.DATA_LEN. rewrite Hid, Hdata. reflexivity.
  - intros os' Hwf' Hread' Heq. unfold frame_wf in Hwf'.
    replace (0 <? AR.to_sint8 (read_res os')) with true in Heq
      by (symmetry; apply Z.ltb_lt; lia).
    injection Heq as _ _ Hdata.
    rewrite !take_ge in Hdata by (rewrite ?Hwf, ?Hwf'; vm_compute; lia).
    exact Hdata.
Qed.

Lemma receive_capacity_asymmetry_witness :
  is_can_initialized ready_socket = true /\ frame_wf (rx_frame fd_arrival) /\
  0 < wait_res fd_arrival /\ 0 < AR.to_sint8 (read_res fd_arrival) /\
  rx_out (receive ready_socket fd_arrival (0, []) ) =
    (291, [1; 2; 3; 4; 5; 6; 7; 8; 9; 10; 11; 12] ++ replicate 52 0) /\
  rx_out (receive_timed ready_socket fd_arrival (0, []) 1000) =
    (291, [1; 2; 3; 4; 5; 6; 7; 8]).
Proof.
  split; [reflexivity |]. split; [reflexivity |].
  split; [reflexivity |]. split; [reflexivity |].
  destruct (receive_capacity_asymmetry ready_socket fd_arrival (0, []) 1000
              eq_refl eq_refl eq_refl eq_refl)
    as (_ & Hblocking & _ & Htimed & _).
  split; [exact Hblocking | exact Htimed].
Defined.




(** * Additional properties *)

(** ** [send] *)

Lemma to_sint8_range z : AR.is_sint8 (AR.to_sint8 z).
Proof.
  unfold AR.is_sint8, AR.to_sint8.
  pose proof (Z.mod_pos_bound (z + 128) 256). lia.
Qed.

(** The endpoint a returning call leaves behind: the one it found, up to
    Last Error. *)
Lemma send_done_state K self frame0 os id payload l ret self' trace :
  send K self frame0 os id payload l = Done (ret, self', trace) ->
  self' = self \/ self' = set_last_error self (cout_errno os).
Proof.
  unfold send. destruct (is_can_initialized self && (0 <? l)).
  - cbv zeta.
    destruct (copy_loop payload (Z.to_nat l) 0 _) as [out | e];
      cbn [checked_bind]; [| discriminate].
    destruct (AR.to_sint8 (send_res os) <=? 0); intros H;
      injection H as _ <- _; auto.
  - intros H. injection H as _ <- _. auto.
Qed.

(** X1. With a payload container of the right size, [send] leaves the
    bounds of an array exactly when the endpoint is initialized and the
    requested length exceeds the container's capacity; in every other case,
    in particular for every length from 1 to the capacity, all indices of
    the copy loop are inside both arrays and the call returns. *)
Theorem send_faults_iff K self frame0 os id payload l :
  frame_wf frame0 -> length payload = capacity K ->
  ((exists e, send K self frame0 os id payload l = Fault e) <->
   (is_can_initialized self = true /\ Z.of_nat (capacity K) < l)) /\
  ((exists r, send K self frame0 os id payload l = Done r) <->
   (is_can_initialized self = false \/ l <= Z.of_nat (capacity K))).
Proof.
  intros Hwf Hlen.
  destruct (is_can_initialized self) eqn:Hinit.
  - destruct (Z_le_gt_dec l 0) as [H0 | H0].
    + rewrite send_rejected by auto. split; split.
      * intros [e He]. discriminate.
      * intros [_ Hl]. lia.
      * intros _. right. lia.
      * intros _. eauto.
    + destruct (Z_le_gt_dec l (Z.of_nat (capacity K))) as [Hc | Hc].
      * rewrite send_in_range by (done || lia). split; split.
        -- intros [e He]. discriminate.
        -- intros [_ Hl]. lia.
        -- intros _. by right.
        -- intros _. eauto.
      * rewrite send_overlong by (done || lia). split; split.
        -- intros _. split; [done | lia].
        -- intros _. eauto.
        -- intros [r Hr]. discriminate.
        -- intros [Hf | Hl]; [discriminate | lia].
  - rewrite send_rejected by auto. split; split.
    + intros [e He]. discriminate.
    + intros [Ht _]. discriminate.
    + intros _. by left.
    + intros _. eauto.
Qed.

Lemma send_faults_iff_witness :
  frame_wf stale_frame /\ length payload64 = capacity CanFDData /\
  exists r, send CanFDData ready_socket stale_frame write_ok 291 payload64 64 = Done r.
Proof.
  split; [reflexivity |]. split; [reflexivity |].
  destruct (send_faults_iff CanFDData ready_socket stale_frame write_ok 291
              payload64 64 eq_refl eq_refl) as [_ [_ Hdone]].
  apply Hdone. right. vm_compute. discriminate.
Defined.

(** X2. Whatever [write] answers, a returning [send] yields either -1 or a
    value from 1 to 127: it never returns 0 and never a negative value other
    than -1. *)
Theorem send_return_range K self frame0 os id payload l ret self' trace :
  send K self frame0 os id payload l = Done (ret, self', trace) ->
  ret = -1 \/ 1 <= ret <= 127.
Proof.
  unfold send. destruct (is_can_initialized self && (0 <? l)).
  - cbv zeta.
    destruct (copy_loop payload (Z.to_nat l) 0 _) as [out | e];
      cbn [checked_bind]; [| discriminate].
    pose proof (to_sint8_range (send_res os)) as Hrange.
    unfold AR.is_sint8 in Hrange.
    destruct (Z.leb_spec (AR.to_sint8 (send_res os)) 0) as [Hle | Hgt];
      intros H; injection H as <- _ _; [by left | right; lia].
  - intros H. injection H as <- _ _. by left.
Qed.

Lemma send_return_range_witness :
  send CanStdData ready_socket stale_frame
       {| send_res := 0; write_errno := 11; cout_errno := 11 |} 291 payload8 8 =
    Done (-1, set_last_error ready_socket 11,
          [OsWrite 3 (frame_object CanStdData stale_frame 291 payload8 8) 16]) /\
  (-1 = -1 \/ 1 <= -1 <= 127).
Proof.
  split; [reflexivity |].
  apply (send_return_range CanStdData ready_socket stale_frame
           {| send_res := 0; write_errno := 11; cout_errno := 11 |} 291 payload8 8 (-1)
           (set_last_error ready_socket 11)
           [OsWrite 3 (frame_object CanStdData stale_frame 291 payload8 8) 16]).
  reflexivity.
Defined.

(** X3. In every frame that reaches the transport the identifier is the
    caller's, the length field is the requested length, which lies between
    1 and the capacity, and the payload bytes below that length are the
    caller's bytes at the same indices. *)
Theorem send_wire_payload
    K self frame0 os id payload l ret self' trace socket buf n :
  frame_wf frame0 -> length payload = capacity K ->
  send K self frame0 os id payload l = Done (ret, self', trace) ->
  In (OsWrite socket buf n) trace ->
  socket = get_socket_handle self /\
  can_id (envelope buf n) = id /\
  len (envelope buf n) = l /\
  0 < l <= Z.of_nat (capacity K) /\
  forall j, (j < Z.to_nat l)%nat ->
            data (envelope buf n) !! j = payload !! j /\
            is_Some (payload !! j).
Proof.
  intros Hwf Hlen Hsend Hin.
  pose proof (send_done_inv _ _ _ _ _ _ _ _ Hwf Hlen Hsend)
    as [[_ Hr] | (Hinit & Hl & Hr)].
  { injection Hr as -> -> ->. destruct Hin. }
  injection Hr as _ ->. destruct Hin as [Heq | []].
  injection Heq as <- <- <-.
  rewrite envelope_frame_object by done. unfold wire_frame. simpl.
  split; [reflexivity |]. split; [reflexivity |]. split; [reflexivity |].
  split; [exact Hl |].
  intros j Hj. split.
  - rewrite lookup_app_l by (rewrite length_take; lia).
    apply lookup_take_lt. lia.
  - apply lookup_lt_is_Some_2. lia.
Qed.

Lemma send_wire_payload_witness :
  frame_wf stale_frame /\ length payload8 = capacity CanStdData /\
  send CanStdData ready_socket stale_frame write_ok 291 payload8 5 =
    Done (16, ready_socket,
          [OsWrite 3 (frame_object CanStdData stale_frame 291 payload8 5) 16]) /\
  len (envelope (frame_object CanStdData stale_frame 291 payload8 5) 16) = 5.
Proof.
  split; [reflexivity |]. split; [reflexivity |]. split; [reflexivity |].
  pose proof (send_wire_payload CanStdData ready_socket stale_frame write_ok
    291 payload8 5 16 ready_socket
    [OsWrite 3 (frame_object CanStdData stale_frame 291 payload8 5) 16]
    3 (frame_object CanStdData stale_frame 291 payload8 5) 16
    eq_refl eq_refl eq_refl (or_introl eq_refl)) as (_ & _ & Hlen & _).
  exact Hlen.
Defined.

(** X4. A returning [send], failed or not, changes no member of the
    endpoint other than Last Error, and the next [send] returns the same
    value and makes the same OS calls as it would have made without the
    earlier call: a failed transmission does not disable the endpoint. *)
Theorem send_keeps_endpoint_usable K self frame0 os id payload l ret self' trace :
  send K self frame0 os id payload l = Done (ret, self', trace) ->
  m_socket self' = m_socket self /\
  m_is_socket_initialized self' = m_is_socket_initialized self /\
  m_ifr self' = m_ifr self /\
  m_can_init self' = m_can_init self /\
  forall K2 frame2 os2 id2 payload2 l2,
    checked_map ret_and_calls (send K2 self' frame2 os2 id2 payload2 l2) =
    checked_map ret_and_calls (send K2 self frame2 os2 id2 payload2 l2).
Proof.
  intros Hsend.
  destruct (send_done_state _ _ _ _ _ _ _ _ _ _ Hsend) as [-> | ->];
    repeat (split; [reflexivity |]); [reflexivity |].
  intros K2 frame2 os2 id2 payload2 l2. unfold send.
  change (is_can_initialized (set_last_error self (cout_errno os)))
    with (is_can_initialized self).
  change (get_socket_handle (set_last_error self (cout_errno os)))
    with (get_socket_handle self).
  destruct (is_can_initialized self && (0 <? l2)); [| reflexivity].
  cbv zeta.
  destruct (copy_loop payload2 (Z.to_nat l2) 0 _) as [out | e];
    cbn [checked_bind]; [| reflexivity].
  destruct (AR.to_sint8 (send_res os2) <=? 0); reflexivity.
Qed.

Lemma send_keeps_endpoint_usable_witness :
  send CanStdData ready_socket stale_frame write_failed 291 payload8 8 =
    Done (-1, set_last_error ready_socket 100,
          [OsWrite 3 (frame_object CanStdData stale_frame 291 payload8 8) 16]) /\
  m_can_init (set_last_error ready_socket 100) = m_can_init ready_socket.
Proof.
  split; [reflexivity |].
  pose proof (send_keeps_endpoint_usable CanStdData ready_socket stale_frame
    write_failed 291 payload8 8 (-1) (set_last_error ready_socket 100)
    [OsWrite 3 (frame_object CanStdData stale_frame 291 payload8 8) 16]
    eq_refl) as (_ & _ & _ & Hinit & _).
  exact Hinit.
Defined.

(** The literal loop, once the counter is known not to wrap, does what the
    loop with [n] iterations left does. *)
Lemma copy_loop_u8_steps payload length_arg n : forall fuel i fdata,
  0 <= i -> i + Z.of_nat n = length_arg -> length_arg < 256 ->
  (n < fuel)%nat ->
  copy_loop_u8 fuel payload length_arg i fdata =
  Some (copy_loop payload n (Z.to_nat i) fdata).
Proof.
  induction n as [| n IH]; intros fuel i fdata Hi Hsum Hlen Hfuel;
    (destruct fuel as [| fuel]; [lia |]); simpl.
  - replace (i <? length_arg) with false by (symmetry; apply Z.ltb_ge; lia).
    reflexivity.
  - replace (i <? length_arg) with true by (symmetry; apply Z.ltb_lt; lia).
    destruct (payload !! Z.to_nat i) as [b |]; [| reflexivity].
    destruct (decide (Z.to_nat i < length fdata)%nat); [| reflexivity].
    rewrite to_uint8_id by (unfold AR.is_uint8; lia).
    rewrite IH by lia. do 3 f_equal. lia.
Qed.

(** X5. The copy loop of [send] ends for every 8-bit length: its 8-bit
    counter reaches the requested length without wrapping, so 256 loop
    tests always suffice, and the loop makes exactly [len] iterations (or
    stops at the first index outside an array). *)
Theorem copy_loop_u8_terminates fuel payload l fdata :
  AR.is_uint8 l -> (256 <= fuel)%nat ->
  copy_loop_u8 fuel payload l 0 fdata =
  Some (copy_loop payload (Z.to_nat l) 0 fdata).
Proof.
  intros [Hl0 Hl] Hfuel.
  apply (copy_loop_u8_steps payload l (Z.to_nat l) fuel 0 fdata); lia.
Qed.

Lemma copy_loop_u8_terminates_witness :
  AR.is_uint8 255 /\ (256 <= 256)%nat /\
  copy_loop_u8 256 payload8 255 0 (replicate CANFD_MAX_DLEN 0) =
  Some (Fault (PayloadIndexOutOfBounds 8)).
Proof.
  split; [unfold AR.is_uint8; lia |]. split; [lia |].
  rewrite (copy_loop_u8_terminates 256 payload8 255 (replicate CANFD_MAX_DLEN 0));
    [reflexivity | unfold AR.is_uint8; lia | lia].
Defined.

(** ** [check_interface] *)

(** [strncpy] looks at no more than the first [n] characters of its
    source. *)
Lemma strncpy_chars_take n : forall src,
  strncpy_chars src n = strncpy_chars (take n src) n.
Proof.
  induction n as [| n IH]; intros src; [reflexivity |].
  destruct src as [| c rest]; simpl; [reflexivity |].
  destruct (Ascii.eqb c zero); [reflexivity |].
  by rewrite <- IH.
Qed.

Lemma strncpy_chars_length n : forall src copied,
  strncpy_chars src n = Done copied -> length copied = n.
Proof.
  induction n as [| n IH]; intros src copied H; simpl in H.
  - by injection H as <-.
  - destruct src as [| c rest]; [discriminate |].
    destruct (Ascii.eqb c zero).
    + injection H as <-. simpl. by rewrite length_replicate.
    + destruct (strncpy_chars rest n) as [tl |] eqn:Htl; [| discriminate].
      injection H as <-. simpl. f_equal. by apply (IH rest).
Qed.

(** [strncpy] runs off the source array exactly when the array is shorter
    than [n] and holds no NUL. *)
Lemma strncpy_chars_fault_iff n : forall src,
  (exists e, strncpy_chars src n = Fault e) <->
  ((length src < n)%nat /\ forall c, In c src -> c <> zero).
Proof.
  induction n as [| n IH]; intros src; simpl.
  - split; [intros [e He]; discriminate | intros [Hlt _]; lia].
  - destruct src as [| c rest].
    + split; [intros _ | eauto]. split; [simpl; lia | intros c []].
    + destruct (Ascii.eqb c zero) eqn:Hc.
      * apply eqb_zero_spec in Hc. subst c. split.
        -- intros [e He]. discriminate.
        -- intros [_ Hnz]. exfalso. apply (Hnz zero); [by left | done].
      * assert (Hcz : c <> zero).
        { intros ->. rewrite Ascii.eqb_refl in Hc. discriminate. }
        specialize (IH rest).
        destruct (strncpy_chars rest n) as [tl | e0]; simpl.
        -- split; [intros [e He]; discriminate |].
           intros [Hlt Hnz].
           assert (Hex : exists e, Done tl = Fault e).
           { apply IH. split; [simpl in Hlt; lia |].
             intros c' Hin. apply Hnz. by right. }
           destruct Hex as [e He]. discriminate.
        -- split; [intros _ | eauto].
           destruct IH as [IH1 _]. destruct IH1 as [Hlt Hnz]; [eauto |].
           split; [simpl; lia |].
           intros c' [<- | Hin]; [done | by apply Hnz].
Qed.

(** Closing the buffer: with 15 copied characters in a 16-byte buffer, the
    store at index 15 leaves nothing of the old content. *)
Lemma ifr_name_terminated (copied old : list ascii) :
  length copied = (IFNAMSIZ - 1)%nat -> length old = IFNAMSIZ ->
  <[(IFNAMSIZ - 1)%nat := zero]> (copied ++ drop (IFNAMSIZ - 1) old) =
  copied ++ [zero].
Proof.
  intros Hlen Hold.
  destruct (drop (IFNAMSIZ - 1) old) as [| x rest] eqn:Hd.
  - apply (f_equal length) in Hd. rewrite length_drop, Hold in Hd.
    vm_compute in Hd. discriminate.
  - assert (rest = []) as ->.
    { apply (f_equal length) in Hd. rewrite length_drop, Hold in Hd.
      simpl in Hd. destruct rest; [done |]. vm_compute in Hd. discriminate. }
    rewrite <- Hlen at 1.
    replace (length copied) with (length copied + 0)%nat by lia.
    by rewrite insert_app_r.
Qed.

(** X6. [check_interface] reads beyond its argument exactly when the
    character array has fewer than [IFNAMSIZ - 1] elements and none of them
    is NUL; a string literal, or any array of at least 15 characters, is
    never overrun. *)
Theorem check_interface_overrun_iff os self interface_str :
  (exists e, check_interface os self interface_str = Fault e) <->
  ((length interface_str < IFNAMSIZ - 1)%nat /\
   forall c, In c interface_str -> c <> zero).
Proof.
  rewrite <- strncpy_chars_fault_iff.
  unfold check_interface, strncpy.
  destruct (strncpy_chars interface_str (IFNAMSIZ - 1)) as [copied | e];
    cbn [checked_bind].
  - split; intros [e He]; [| discriminate].
    destruct (negb _) in He; discriminate.
  - split; eauto.
Qed.

Lemma check_interface_overrun_iff_witness :
  exists e, check_interface host_with_can0 raw_socket unterminated_can0 = Fault e.
Proof.
  apply (check_interface_overrun_iff host_with_can0 raw_socket unterminated_can0).
  split; [vm_compute; lia |].
  intros c Hin. simpl in Hin.
  destruct Hin as [<- | [<- | [<- | [<- | []]]]]; discriminate.
Defined.

(** X7. Two arrays with the same first [IFNAMSIZ - 1] characters are
    resolved alike: the same lookup is made and the same answer and state
    result, so interface names that differ only from the 16th character
    on cannot be told apart. *)
Theorem check_interface_truncation_collision os self src1 src2 :
  take (IFNAMSIZ - 1) src1 = take (IFNAMSIZ - 1) src2 ->
  check_interface os self src1 = check_interface os self src2.
Proof.
  intros Htake. unfold check_interface, strncpy.
  rewrite (strncpy_chars_take _ src1), (strncpy_chars_take _ src2), Htake.
  reflexivity.
Qed.

Lemma check_interface_truncation_collision_witness :
  take (IFNAMSIZ - 1) (char_array "can0_interface_one") =
  take (IFNAMSIZ - 1) (char_array "can0_interface_two") /\
  check_interface host_with_can0 raw_socket (char_array "can0_interface_one") =
  check_interface host_with_can0 raw_socket (char_array "can0_interface_two").
Proof.
  split; [reflexivity |].
  apply (check_interface_truncation_collision host_with_can0 raw_socket
           (char_array "can0_interface_one") (char_array "can0_interface_two")).
  reflexivity.
Defined.

(** X8. Nothing of the previous content of [m_ifr] survives a call: the
    answer, the stored name, the stored index and the lookup made are the
    same whatever the 16-byte name buffer and the index held before,
    because [strncpy] pads the name with NULs. *)
Theorem check_interface_overwrites_ifr os self1 self2 interface_str :
  length (ifr_name (m_ifr self1)) = IFNAMSIZ ->
  length (ifr_name (m_ifr self2)) = IFNAMSIZ ->
  checked_map answer_ifr_calls (check_interface os self1 interface_str) =
  checked_map answer_ifr_calls (check_interface os self2 interface_str).
Proof.
  intros H1 H2. unfold check_interface, strncpy.
  destruct (strncpy_chars interface_str (IFNAMSIZ - 1)) as [copied | e] eqn:Hcopy;
    cbn [checked_bind]; [| reflexivity].
  apply strncpy_chars_length in Hcopy.
  rewrite !ifr_name_terminated by done.
  destruct (negb _); reflexivity.
Qed.

Lemma check_interface_overwrites_ifr_witness :
  length (ifr_name (m_ifr raw_socket)) = IFNAMSIZ /\
  length (ifr_name (m_ifr ready_socket)) = IFNAMSIZ /\
  checked_map answer_ifr_calls
    (check_interface host_with_can0 raw_socket (char_array "can0")) =
  Done (true,
        {| ifr_name := char_array "can0" ++ replicate 11 zero; ifr_ifindex := 4 |},
        [OsIfNameToIndex "can0"]).
Proof.
  split; [reflexivity |]. split; [reflexivity |].
  rewrite (check_interface_overwrites_ifr host_with_can0 raw_socket ready_socket
             (char_array "can0") eq_refl eq_refl).
  reflexivity.
Defined.

(** ** The constructor followed by [send] *)

(** X9. What construction decides, every later [send] obeys: if all four
    initialisation steps succeeded, a [send] with a length the container
    can hold performs one [write] of the fixed envelope on the endpoint's
    handle; if any step failed, every [send], whatever its arguments,
    returns -1 without an OS call and leaves the endpoint as it is. *)
Theorem CanSocket_ctor_then_send os raw_ifr s :
  os_env_wf os -> length (ifr_name raw_ifr) = IFNAMSIZ ->
  exists self trace,
    CanSocket_ctor os raw_ifr (char_array s) = Done (self, trace) /\
    ((forall st, step_ok os s st = true) ->
     forall K frame0 wr id payload l,
       frame_wf frame0 -> length payload = capacity K ->
       0 < l <= Z.of_nat (capacity K) ->
       send K self frame0 wr id payload l =
       Done (after_write self wr,
             [OsWrite (get_socket_handle self)
                      (frame_object K frame0 id payload l)
                      (sizeof_SelectedFrame K)])) /\
    ((exists st, step_ok os s st = false) ->
     forall K frame0 wr id payload l,
       send K self frame0 wr id payload l = Done (-1, self, [])).
Proof.
  intros Hos Hname.
  destruct (CanSocket_ctor_literal os raw_ifr s Hos Hname)
    as (self & trace & Hctor & Hinit & _ & _).
  exists self, trace. split; [exact Hctor |]. split.
  - intros Hall K frame0 wr id payload l Hwf Hlen Hl.
    apply send_in_range; try done.
    unfold is_can_initialized. rewrite Hinit, !Hall. reflexivity.
  - intros [st Hst] K frame0 wr id payload l.
    apply send_rejected. left.
    unfold is_can_initialized. rewrite Hinit.
    destruct st; rewrite Hst; rewrite ?andb_false_r; reflexivity.
Qed.

Lemma CanSocket_ctor_then_send_witness :
  os_env_wf host_without_can /\ length (ifr_name raw_ifreq) = IFNAMSIZ /\
  exists self trace,
    CanSocket_ctor host_without_can raw_ifreq (char_array "vcan7") =
      Done (self, trace) /\
    send CanStdData self stale_frame write_ok 291 payload8 8 = Done (-1, self, []).
Proof.
  split; [exact host_without_can_wf |]. split; [reflexivity |].
  destruct (CanSocket_ctor_then_send host_without_can raw_ifreq "vcan7"
              host_without_can_wf eq_refl)
    as (self & trace & Hctor & _ & Hfail).
  exists self, trace. split; [exact Hctor |].
  apply Hfail. exists StepInterface. reflexivity.
Defined.
